(** * Verification of the tcpcm_transcriber text core

    A shallow embedding of [tcpcm_transcriber/chunk.py] (the character-window
    chunker), [tcpcm_transcriber/normalize.py] (glossary and filler
    normalisation) and the segment loop of [tcpcm_transcriber/asr.py], with
    the properties stated for them.

    Modelling choices:
    - a Python [str] is a list of characters ([list ascii]); [len] counts them;
    - Python [float] timestamps are rationals [Q]; they are only copied and
      compared with [==] by the code;
    - a raised exception is a record of its class name and message;
    - a [Segment] is a pydantic model that is not frozen, hence unhashable:
      [set.add] of a [Segment] raises [TypeError];
    - a [while] loop runs on fuel; running out of fuel is the distinguished
      outcome [Diverge], so termination is a theorem about the fuel used. *)

From Stdlib Require Import ZArith List Ascii String Bool Lia QArith Sorted Permutation.
Import ListNotations.
Open Scope Z_scope.

(** ** Python values *)

Module Py.

Definition str := list ascii.

(** [str.isspace] on one character (the ASCII range): \t \n \v \f \r,
    the separators \x1c..\x1f and the space. *)
Definition isspace (c : ascii) : bool :=
  let n := nat_of_ascii c in
  ((9 <=? n) && (n <=? 13))%nat || ((28 <=? n) && (n <=? 32))%nat.

Fixpoint lstrip (s : str) : str :=
  match s with
  | [] => []
  | c :: r => if isspace c then lstrip r else s
  end.

Definition rstrip (s : str) : str := rev (lstrip (rev s)).

(** [str.strip()] with no argument. *)
Definition strip (s : str) : str := rstrip (lstrip s).

Definition len {A} (l : list A) : Z := Z.of_nat (List.length l).

(** Index normalisation of a slice bound: negative bounds count from the end,
    then the bound is clamped to [0, len]. *)
Definition slice_index (k L : Z) : Z :=
  if k <? 0 then Z.max 0 (k + L) else Z.min k L.

(** [s[i:j]] *)
Definition slice {A} (s : list A) (i j : Z) : list A :=
  let L := len s in
  let i' := slice_index i L in
  let j' := slice_index j L in
  firstn (Z.to_nat (j' - i')) (skipn (Z.to_nat i') s).

(** [l[i]]: negative indices count from the end; [None] is an IndexError. *)
Definition getitem {A} (l : list A) (i : Z) : option A :=
  let i' := if i <? 0 then i + len l else i in
  if (i' <? 0) || (len l <=? i') then None else nth_error l (Z.to_nat i').

Fixpoint str_eqb (a b : str) : bool :=
  match a, b with
  | [], [] => true
  | x :: a', y :: b' => Ascii.eqb x y && str_eqb a' b'
  | _, _ => false
  end.

Record exn := mk_exn { exn_type : string; exn_msg : string }.

(** Outcome of a call: a returned value, a raised exception, or a loop that
    has not finished within the fuel it was given. *)
Inductive outcome (A : Type) :=
| Return (a : A)
| Raise (e : exn)
| Diverge.
Arguments Return {A} a.
Arguments Raise {A} e.
Arguments Diverge {A}.

End Py.

Import Py.

(** ** [schemas.py] *)

Module Segment.
Record t := mk { id : Z; start : Q; end_ : Q; text : str }.
End Segment.

Module Chunk.
Record t := mk {
  chunk_id : Z; text : str; start : Q; end_ : Q;
  segment_ids : list Z; char_count : Z; source_file : option str }.
End Chunk.

(** ** [chunk.py] *)

Module Chunker.

Record TextChunker := mk_chunker {
  target_chars : Z; overlap_chars : Z; stride : Z }.

(** [TextChunker.__init__] *)
Definition init (target_chars overlap_chars : Z) : exn + TextChunker :=
  if overlap_chars >=? target_chars then
    inl (mk_exn "ValueError" "overlap_chars must be less than target_chars")
  else inr (mk_chunker target_chars overlap_chars (target_chars - overlap_chars)).

(** The exception of [set.add] on a [Segment]. *)
Definition unhashable_segment : exn := mk_exn "TypeError" "unhashable type: 'Segment'".

(** [s.add(seg)] for a [set] [s] of segments.  [Segment] is a pydantic
    [BaseModel] that is not frozen: the model class defines [__eq__] and no
    [__hash__], so [Segment.__hash__] is [None] and [set.add] raises
    [TypeError] before it looks at the set. *)
Definition set_add (seg : Segment.t) (s : list Segment.t) : exn + list Segment.t :=
  inl unhashable_segment.

(** [sorted(xs, key=lambda s: s.id)]: a stable insertion sort. *)
Fixpoint insert_by_id (seg : Segment.t) (l : list Segment.t) : list Segment.t :=
  match l with
  | [] => [seg]
  | x :: r => if Segment.id seg <? Segment.id x then seg :: l
              else x :: insert_by_id seg r
  end.

Definition sorted_by_id (l : list Segment.t) : list Segment.t :=
  fold_left (fun acc seg => insert_by_id seg acc) l [].

(** One iteration of the [for seg in segments] loop that builds [full_text]
    and [char_to_segment]. *)
Definition combine_step (acc : str * list Segment.t) (seg : Segment.t)
  : str * list Segment.t :=
  let (full_text, char_to_segment) := acc in
  let seg_text := Segment.text seg ++ [" "%char] in
  (full_text ++ seg_text, char_to_segment ++ repeat seg (List.length seg_text)).

Definition combine (segments : list Segment.t) : str * list Segment.t :=
  fold_left combine_step segments ([], []).

Section Loop.
Variables (self : TextChunker) (full_text : str)
  (char_to_segment : list Segment.t) (source_file : option str).

(** [for i in range(i, i + n): if i < len(char_to_segment): add(...)] *)
Fixpoint collect_from (i : Z) (n : nat) (acc : list Segment.t)
  : exn + list Segment.t :=
  match n with
  | O => inr acc
  | S n' =>
    if i <? len char_to_segment then
      match getitem char_to_segment i with
      | Some seg =>
        match set_add seg acc with
        | inl e => inl e
        | inr acc => collect_from (i + 1) n' acc
        end
      | None => inl (mk_exn "IndexError" "list index out of range")
      end
    else collect_from (i + 1) n' acc
  end.

Definition collect_range (a b : Z) : exn + list Segment.t :=
  collect_from a (Z.to_nat (b - a)) [].

(** The [while start_char < len(full_text)] loop.  Besides the chunks it
    returns the list of the [start_char] values of the windows it considered
    (a ghost trace, not part of the Python result). *)
Fixpoint chunk_loop (fuel : nat) (start_char chunk_id : Z)
  (chunks : list Chunk.t) (windows : list Z)
  : outcome (list Chunk.t * list Z) :=
  match fuel with
  | O => Diverge
  | S fuel' =>
    if start_char <? len full_text then
      let end_char := Z.min (start_char + target_chars self) (len full_text) in
      let chunk_text := strip (slice full_text start_char end_char) in
      let windows := windows ++ [start_char] in
      match chunk_text with
      | [] => Return (chunks, windows)
      | _ :: _ =>
        match collect_range start_char (Z.min end_char (len char_to_segment)) with
        | inl e => Raise e
        | inr found =>
          let chunk_segments := sorted_by_id found in
          let '(chunks, chunk_id) :=
            match chunk_segments with
            | [] => (chunks, chunk_id)
            | first :: _ =>
              (chunks ++ [Chunk.mk chunk_id chunk_text (Segment.start first)
                           (Segment.end_ (last chunk_segments first))
                           (map Segment.id chunk_segments)
                           (len chunk_text) source_file],
               chunk_id + 1)
            end in
          let start_char := start_char + stride self in
          if end_char >=? len full_text then Return (chunks, windows)
          else chunk_loop fuel' start_char chunk_id chunks windows
        end
      end
    else Return (chunks, windows)
  end.

End Loop.

(** [TextChunker.chunk_segments], with the ghost trace of windows. *)
Definition chunk_segments_trace (self : TextChunker) (segments : list Segment.t)
  (source_file : option str) : outcome (list Chunk.t * list Z) :=
  match segments with
  | [] => Return ([], [])
  | _ :: _ =>
    let '(full_text, char_to_segment) := combine segments in
    let full_text := strip full_text in
    chunk_loop self full_text char_to_segment source_file
      (S (List.length full_text)) 0 0 [] []
  end.

(** [TextChunker.chunk_segments] *)
Definition chunk_segments (self : TextChunker) (segments : list Segment.t)
  (source_file : option str) : outcome (list Chunk.t) :=
  match chunk_segments_trace self segments source_file with
  | Return (chunks, _) => Return chunks
  | Raise e => Raise e
  | Diverge => Diverge
  end.

(** [chunk_transcript] *)
Definition chunk_transcript (segments : list Segment.t)
  (target_chars overlap_chars : Z) (source_file : option str)
  : outcome (list Chunk.t) :=
  match init target_chars overlap_chars with
  | inl e => Raise e
  | inr chunker => chunk_segments chunker segments source_file
  end.

End Chunker.

(** ** [normalize.py] *)

Module Normalizer.

(** [str.lower] on one character. *)
Definition lower (c : ascii) : ascii :=
  let n := nat_of_ascii c in
  if ((65 <=? n) && (n <=? 90))%nat then ascii_of_nat (n + 32) else c.

(** [\w]: letters, digits and the underscore. *)
Definition is_word (c : ascii) : bool :=
  let n := nat_of_ascii c in
  ((48 <=? n) && (n <=? 57))%nat || ((65 <=? n) && (n <=? 90))%nat
  || ((97 <=? n) && (n <=? 122))%nat || (n =? 95)%nat.

Definition word_at (s : str) (i : nat) : bool :=
  match nth_error s i with Some c => is_word c | None => false end.

(** [\b] at position [i] of [s]. *)
Definition boundary (s : str) (i : nat) : bool :=
  xorb (match i with O => false | S k => word_at s k end) (word_at s i).

(** [t] matches the front of [s] under [re.IGNORECASE]. *)
Fixpoint prefix_ci (t s : str) : bool :=
  match t, s with
  | [], _ => true
  | x :: t', y :: s' => Ascii.eqb (lower x) (lower y) && prefix_ci t' s'
  | _ :: _, [] => false
  end.

(** A compiled [\b(t1|t2|...)\b] pattern: the escaped alternatives, in order. *)
Definition pattern := list str.

(** [_create_pattern] *)
Definition create_pattern (terms : list str) : pattern := terms.

(** The match of the pattern at position [i], trying the alternatives in
    order and backtracking into the next one when the closing [\b] fails.
    With [forbid_empty] an empty match is refused (the [must_advance] rule of
    [re.sub] after an empty match). Returns the length of the match. *)
Fixpoint match_alts (alts : pattern) (s : str) (i : nat) (forbid_empty : bool)
  : option nat :=
  match alts with
  | [] => None
  | t :: rest =>
    if prefix_ci t (skipn i s) && boundary s (i + List.length t)
       && negb (forbid_empty && (List.length t =? 0)%nat)
    then Some (List.length t)
    else match_alts rest s i forbid_empty
  end.

Definition match_at (p : pattern) (s : str) (i : nat) (forbid_empty : bool)
  : option nat :=
  if boundary s i then match_alts p s i forbid_empty else None.

(** [pattern.search] from position [i] (over [k + 1] candidate positions);
    [must_advance] refuses an empty match at the first position only. *)
Fixpoint search_from (p : pattern) (s : str) (i k : nat) (must_advance : bool)
  : option (nat * nat) :=
  match match_at p s i must_advance with
  | Some l => Some (i, l)
  | None =>
    match k with
    | O => None
    | S k' => search_from p s (S i) k' false
    end
  end.

Definition search (p : pattern) (s : str) (pos : nat) (must_advance : bool)
  : option (nat * nat) :=
  search_from p s pos (List.length s - pos) must_advance.

(** The loop of [pattern.sub(repl, s)]: [out] is the text built so far,
    [pos] the end of the last match. *)
Fixpoint sub_loop (p : pattern) (repl : str -> str) (s : str) (fuel pos : nat)
  (must_advance : bool) (out : str) : outcome str :=
  match fuel with
  | O => Diverge
  | S fuel' =>
    match search p s pos must_advance with
    | None => Return (out ++ skipn pos s)
    | Some (b, l) =>
      let out := out ++ firstn (b - pos) (skipn pos s)
                     ++ repl (firstn l (skipn b s)) in
      sub_loop p repl s fuel' (b + l) (l =? 0)%nat out
    end
  end.

Definition sub (p : pattern) (repl : str -> str) (s : str) : outcome str :=
  sub_loop p repl s (S (2 * List.length s + 1)) 0 false [].

(** [re.sub(r'\s+', ' ', s)]: every maximal run of whitespace becomes one
    space; [in_run] records that the previous character was whitespace. *)
Fixpoint collapse_ws (s : str) (in_run : bool) : str :=
  match s with
  | [] => []
  | c :: r =>
    if isspace c then
      if in_run then collapse_ws r true else " "%char :: collapse_ws r true
    else c :: collapse_ws r false
  end.

Definition str_lower (s : str) : str := map lower s.

Definition FILLER_WORDS : list str :=
  map list_ascii_of_string
    ["um"; "uh"; "hmm"; "mhm"; "uh-huh"; "mm-hmm";
     "like"; "you know"; "i mean"; "sort of"; "kind of"]%string.

(** [sorted(terms, key=len, reverse=True)]: stable, longest first. *)
Fixpoint insert_by_len (t : str) (l : list str) : list str :=
  match l with
  | [] => [t]
  | x :: r => if (List.length x <? List.length t)%nat then t :: l
              else x :: insert_by_len t r
  end.

Definition sort_by_len_desc (l : list str) : list str :=
  fold_left (fun acc t => insert_by_len t acc) l [].

Record TextNormalizer := mk_normalizer {
  glossary : list (str * str);
  remove_fillers : bool;
  glossary_pattern : pattern;
  filler_pattern : option pattern }.

(** [TextNormalizer.__init__], given the loaded glossary (a JSON object, as
    key/value pairs in file order). *)
Definition init (glossary : list (str * str)) (remove_fillers : bool)
  : TextNormalizer :=
  mk_normalizer glossary remove_fillers
    (create_pattern (sort_by_len_desc (map fst glossary)))
    (if remove_fillers then Some (create_pattern FILLER_WORDS) else None).

(** [replace_func] of [_apply_glossary]. *)
Fixpoint lookup_canonical (g : list (str * str)) (matched : str) : str :=
  match g with
  | [] => matched
  | (key, value) :: rest =>
    if str_eqb (str_lower key) (str_lower matched) then value
    else lookup_canonical rest matched
  end.

(** [TextNormalizer._apply_glossary] *)
Definition apply_glossary (self : TextNormalizer) (text : str) : outcome str :=
  sub (glossary_pattern self) (lookup_canonical (glossary self)) text.

(** [TextNormalizer._remove_fillers] *)
Definition remove_fillers_in (fp : pattern) (text : str) : outcome str :=
  sub fp (fun _ => []) text.

(** [TextNormalizer.normalize] *)
Definition normalize (self : TextNormalizer) (text : str) : outcome str :=
  match text with
  | [] => Return text
  | _ :: _ =>
    let r1 := match glossary self with
              | [] => Return text
              | _ :: _ => apply_glossary self text
              end in
    match r1 with
    | Raise e => Raise e | Diverge => Diverge
    | Return text =>
      let r2 := match remove_fillers self, filler_pattern self with
                | true, Some fp => remove_fillers_in fp text
                | _, _ => Return text
                end in
      match r2 with
      | Raise e => Raise e | Diverge => Diverge
      | Return text => Return (strip (collapse_ws text false))
      end
    end
  end.

End Normalizer.

(** ** [asr.py]: the segments of [ASREngine.transcribe] *)

Module Asr.

(** A segment as the Whisper model yields it. *)
Record raw_segment := mk_raw { raw_start : Q; raw_end : Q; raw_text : str }.

Record Transcript := mk_transcript {
  segments : list Segment.t;
  language : option str;
  duration : option Q }.

(** The [for i, segment in enumerate(segments_iter)] loop. [has_callback]
    is the truth value of [progress_callback]; its calls
    [progress_callback(seg.end, len(segments))] are returned in order. *)
Fixpoint transcribe_loop (has_callback : bool) (i : Z) (segments_iter : list raw_segment)
  (segments : list Segment.t) (calls : list (Q * Z))
  : list Segment.t * list (Q * Z) :=
  match segments_iter with
  | [] => (segments, calls)
  | segment :: rest =>
    let seg := Segment.mk i (raw_start segment) (raw_end segment)
                 (strip (raw_text segment)) in
    let segments := segments ++ [seg] in
    let calls := if has_callback then calls ++ [(Segment.end_ seg, len segments)]
                 else calls in
    transcribe_loop has_callback (i + 1) rest segments calls
  end.

(** [ASREngine.transcribe], after [self.model.transcribe] returned
    [segments_iter] and [info.language]. *)
Definition transcribe (segments_iter : list raw_segment) (info_language : option str)
  (has_callback : bool) : Transcript * list (Q * Z) :=
  let '(segments, calls) := transcribe_loop has_callback 0 segments_iter [] [] in
  let duration := match segments with
                  | [] => 0%Q
                  | _ :: _ => match getitem segments (-1) with
                              | Some seg => Segment.end_ seg
                              | None => 0%Q
                              end
                  end in
  (mk_transcript segments info_language (Some duration), calls).

End Asr.

(** ** Lemmas on the Python primitives *)

Module PyFacts.

Lemma lstrip_split (s : str) :
  exists p, s = p ++ lstrip s /\ forallb isspace p = true.
Proof.
  induction s as [|c r IH]; simpl.
  - exists []. auto.
  - destruct (isspace c) eqn:E.
    + destruct IH as [p [Hp Hf]]. exists (c :: p). simpl. rewrite E, <- Hp. auto.
    + exists []. auto.
Qed.

Lemma lstrip_head (s : str) c r : lstrip s = c :: r -> isspace c = false.
Proof.
  induction s as [|d s IH]; simpl; [discriminate|].
  destruct (isspace d) eqn:E; [exact IH|]. intros H; injection H as -> _. exact E.
Qed.

Lemma lstrip_idem (s : str) : lstrip (lstrip s) = lstrip s.
Proof.
  induction s as [|c r IH]; simpl; [reflexivity|].
  destruct (isspace c) eqn:E; [exact IH|]. simpl. rewrite E. reflexivity.
Qed.

Lemma rstrip_prefix (s : str) : exists p, s = rstrip s ++ p.
Proof.
  destruct (lstrip_split (rev s)) as [p [Hp _]].
  exists (rev p). unfold rstrip. rewrite <- rev_app_distr, <- Hp, rev_involutive.
  reflexivity.
Qed.

Lemma forallb_isspace_rev (s : str) :
  forallb isspace (rev s) = forallb isspace s.
Proof.
  induction s as [|c r IH]; simpl; [reflexivity|].
  rewrite forallb_app, IH. simpl. rewrite andb_true_r, andb_comm. reflexivity.
Qed.

(** [strip] returns [""] only on whitespace. *)
Lemma strip_nil_inv (s : str) : strip s = [] -> forallb isspace s = true.
Proof.
  unfold strip, rstrip. intros H.
  destruct (lstrip_split s) as [p [Hp Hf]].
  destruct (lstrip_split (rev (lstrip s))) as [q [Hq Hg]].
  assert (Hl : lstrip (rev (lstrip s)) = []).
  { destruct (lstrip (rev (lstrip s))) as [|c l] eqn:E; [reflexivity|].
    simpl in H. destruct (rev l); discriminate. }
  rewrite Hl, app_nil_r in Hq. rewrite Hp, forallb_app, Hf. simpl.
  rewrite <- forallb_isspace_rev, Hq. exact Hg.
Qed.

Lemma strip_not_nil (s : str) : forallb isspace s = false -> strip s <> [].
Proof. intros H E. apply strip_nil_inv in E. congruence. Qed.

Lemma lstrip_all_space (s : str) : forallb isspace s = true -> lstrip s = [].
Proof.
  induction s as [|c r IH]; simpl; [reflexivity|].
  destruct (isspace c); simpl; [exact IH | discriminate].
Qed.

Lemma strip_all_space (s : str) : forallb isspace s = true -> strip s = [].
Proof. intros H. unfold strip. rewrite (lstrip_all_space s H). reflexivity. Qed.

Lemma strip_length (s : str) : (List.length (strip s) <= List.length s)%nat.
Proof.
  unfold strip.
  destruct (rstrip_prefix (lstrip s)) as [q Hq].
  destruct (lstrip_split s) as [p [Hp _]].
  assert (H1 := f_equal (@List.length ascii) Hq).
  assert (H2 := f_equal (@List.length ascii) Hp).
  rewrite length_app in H1, H2. lia.
Qed.

(** [strip] leaves a string that starts with a non-whitespace character. *)
Lemma strip_head (s : str) c r : strip s = c :: r -> isspace c = false.
Proof.
  unfold strip. intros H.
  destruct (rstrip_prefix (lstrip s)) as [q Hq].
  rewrite H in Hq. simpl in Hq.
  apply (lstrip_head (lstrip s) c (r ++ q)). rewrite lstrip_idem. exact Hq.
Qed.

Lemma slice_length_le {A} (s : list A) (i j : Z) :
  0 <= i -> 0 <= j -> len (slice s i j) <= Z.max 0 (j - i).
Proof.
  intros Hi Hj. unfold slice, slice_index, len.
  rewrite (proj2 (Z.ltb_ge i 0) Hi), (proj2 (Z.ltb_ge j 0) Hj).
  rewrite length_firstn.
  pose proof (Nat.le_min_l (Z.to_nat (Z.min j (Z.of_nat (List.length s))
    - Z.min i (Z.of_nat (List.length s)))) (List.length (skipn (Z.to_nat
    (Z.min i (Z.of_nat (List.length s)))) s))).
  lia.
Qed.

Lemma slice_0 {A} (s : list A) (j : Z) :
  0 <= j -> slice s 0 j = firstn (Z.to_nat (Z.min j (len s))) s.
Proof.
  intros Hj. unfold slice, slice_index.
  rewrite (proj2 (Z.ltb_ge j 0) Hj). simpl.
  assert (E : Z.min 0 (len s) = 0) by (unfold len; lia).
  rewrite E, Z.sub_0_r. reflexivity.
Qed.




Lemma getitem_some {A} (l : list A) i :
  0 <= i < len l -> exists x, getitem l i = Some x.
Proof.
  intros H. unfold getitem, len in *.
  rewrite (proj2 (Z.ltb_ge i 0) (proj1 H)).
  rewrite (proj2 (Z.ltb_ge i 0) (proj1 H)), (proj2 (Z.leb_gt _ _) (proj2 H)).
  simpl. destruct (nth_error l (Z.to_nat i)) eqn:E; [eauto|].
  apply nth_error_None in E. lia.
Qed.

End PyFacts.

(** ** Lemmas on the chunker *)

Module ChunkerFacts.
Import PyFacts Chunker.

Lemma init_spec t o self :
  init t o = inr self ->
  o < t /\ target_chars self = t /\ overlap_chars self = o /\ stride self = t - o.
Proof.
  unfold init. destruct (o >=? t) eqn:E; [discriminate|].
  intros H; injection H as <-. rewrite Z.geb_leb, Z.leb_gt in E. simpl. auto.
Qed.

(** *** The set of contributing segments *)

Section Collect.
Variable char_to_segment : list Segment.t.

(** The loop over a [range] never puts a segment into the set: it leaves
    the set as it was, or it raises. *)
Lemma collect_from_inr i n acc found :
  collect_from char_to_segment i n acc = inr found -> found = acc.
Proof.
  revert i. induction n as [|n IH]; intros i; simpl; [congruence|].
  destruct (i <? len char_to_segment); [|apply IH].
  destruct (getitem char_to_segment i); intros H; discriminate H.
Qed.

(** A [range] that reaches an index of [char_to_segment] raises at its first
    [add]. *)
Lemma collect_range_raises a b :
  0 <= a < b -> a < len char_to_segment ->
  collect_range char_to_segment a b = inl unhashable_segment.
Proof.
  intros Hab Ha. unfold collect_range.
  destruct (Z.to_nat (b - a)) as [|n] eqn:E; [lia|]. simpl.
  rewrite (proj2 (Z.ltb_lt _ _) Ha).
  destruct (getitem_some char_to_segment a (conj (proj1 Hab) Ha)) as [x ->].
  reflexivity.
Qed.

(** An empty [range] leaves the set empty. *)
Lemma collect_range_empty a b :
  b <= a -> collect_range char_to_segment a b = inr [].
Proof.
  intros H. unfold collect_range.
  replace (Z.to_nat (b - a)) with O by lia. reflexivity.
Qed.

End Collect.

(** *** Concatenation of the segment texts *)

Definition joined (segments : list Segment.t) : str :=
  flat_map (fun seg => Segment.text seg ++ [" "%char]) segments.

(** Some segment text has a character that is not whitespace. *)
Definition has_text (segments : list Segment.t) : bool :=
  existsb (fun seg => existsb (fun c => negb (isspace c)) (Segment.text seg)) segments.

Lemma existsb_negb_forallb (f : ascii -> bool) (l : str) :
  existsb (fun c => negb (f c)) l = negb (forallb f l).
Proof.
  induction l as [|c r IH]; [reflexivity|]. simpl. rewrite IH.
  destruct (f c); reflexivity.
Qed.

Lemma joined_has_text segments :
  negb (forallb isspace (joined segments)) = has_text segments.
Proof.
  induction segments as [|seg r IH]; [reflexivity|].
  unfold joined, has_text in *. simpl flat_map. simpl existsb.
  rewrite !forallb_app, <- IH, existsb_negb_forallb.
  change (forallb isspace [" "%char]) with true.
  rewrite andb_true_r, negb_andb. reflexivity.
Qed.

Lemma combine_gen segments acc :
  let r := fold_left combine_step segments acc in
  fst r = fst acc ++ joined segments /\
  (List.length (fst r) = List.length (fst acc) + List.length (snd r) - List.length (snd acc))%nat /\
  (List.length (snd acc) <= List.length (snd r))%nat /\
  (forall x, In x (snd r) -> In x (snd acc) \/ In x segments).
Proof.
  revert acc. induction segments as [|seg r IH]; intros [ft c2s].
  - simpl. rewrite app_nil_r. repeat split; [lia|lia|auto].
  - cbn [fold_left].
    set (ft' := ft ++ Segment.text seg ++ [" "%char]).
    set (c2s' := c2s ++ repeat seg (List.length (Segment.text seg ++ [" "%char]))).
    change (combine_step (ft, c2s) seg) with (ft', c2s').
    destruct (IH (ft', c2s')) as [H1 [H2 [H3 H4]]]. cbn [fst snd] in *.
    set (res := fold_left combine_step r (ft', c2s')) in *.
    assert (Ej : joined (seg :: r) = (Segment.text seg ++ [" "%char]) ++ joined r)
      by reflexivity.
    assert (Lf : List.length ft' = (List.length ft + List.length (Segment.text seg ++ [" "%char]))%nat)
      by (unfold ft'; rewrite length_app; reflexivity).
    assert (Lc : List.length c2s' = (List.length c2s + List.length (Segment.text seg ++ [" "%char]))%nat)
      by (unfold c2s'; rewrite length_app, repeat_length; reflexivity).
    repeat split.
    + rewrite H1, Ej. unfold ft'. rewrite <- !app_assoc. reflexivity.
    + lia.
    + lia.
    + intros x Hx. destruct (H4 x Hx) as [Hin|Hin]; [|simpl; auto].
      unfold c2s' in Hin. apply in_app_iff in Hin as [Hin|Hin]; [auto|].
      apply repeat_spec in Hin. simpl. auto.
Qed.

Lemma combine_spec segments full_text char_to_segment :
  combine segments = (full_text, char_to_segment) ->
  full_text = joined segments /\
  List.length full_text = List.length char_to_segment /\
  (forall x, In x char_to_segment -> In x segments).
Proof.
  unfold combine. intros H.
  destruct (combine_gen segments ([], [])) as [H1 [H2 [_ H4]]].
  rewrite H in H1, H2, H4. simpl in *. repeat split; [auto|lia|].
  intros x Hx. destruct (H4 x Hx) as [[]|]; auto.
Qed.

End ChunkerFacts.

Module LoopFacts.
Import PyFacts Chunker ChunkerFacts.

Section Loop.
Variables (self : TextChunker) (full_text : str)
  (char_to_segment : list Segment.t) (source_file : option str).

(** No window appends a chunk: when the loop returns, it returns the chunks
    it started with. *)
Lemma chunk_loop_no_chunk fuel start_char chunk_id chunks windows cs ws :
  chunk_loop self full_text char_to_segment source_file fuel start_char
    chunk_id chunks windows = Return (cs, ws) -> cs = chunks.
Proof.
  revert start_char chunk_id windows.
  induction fuel as [|fuel IH]; intros start_char chunk_id windows H;
    cbn [chunk_loop] in H; [discriminate|].
  destruct (start_char <? len full_text); [|congruence].
  destruct (strip _); [congruence|].
  destruct (collect_range _ _ _) as [e|found] eqn:Hc; [discriminate|].
  unfold collect_range in Hc. apply collect_from_inr in Hc. subst found.
  cbn [sorted_by_id fold_left] in H.
  destruct (_ >=? _); [congruence | exact (IH _ _ _ H)].
Qed.

(** A text that starts with a non-whitespace character, each character with
    its segment: the first window raises. *)
Lemma chunk_loop_first_raises fuel chunk_id chunks windows :
  1 <= target_chars self ->
  (exists c r, full_text = c :: r /\ isspace c = false) ->
  len full_text <= len char_to_segment ->
  chunk_loop self full_text char_to_segment source_file (S fuel) 0 chunk_id
    chunks windows = Raise unhashable_segment.
Proof.
  intros Ht [c [r [Hft Hc]]] Hlen. cbn [chunk_loop].
  assert (HL : 0 < len full_text) by (rewrite Hft; unfold len; simpl; lia).
  rewrite (proj2 (Z.ltb_lt _ _) HL).
  set (e := Z.min (0 + target_chars self) (len full_text)).
  assert (He : 1 <= e) by (unfold e; lia).
  assert (Hw : strip (slice full_text 0 e) <> []).
  { apply strip_not_nil. rewrite slice_0 by lia. rewrite Hft.
    destruct (Z.to_nat (Z.min e (len (c :: r)))) eqn:En.
    - exfalso. unfold len in En. simpl in En. lia.
    - simpl. rewrite Hc. reflexivity. }
  destruct (strip (slice full_text 0 e)) as [|c0 t0]; [congruence|].
  rewrite (collect_range_raises char_to_segment 0 (Z.min e (len char_to_segment)))
    by lia.
  reflexivity.
Qed.

(** With [target_chars <= 0] every [range] is empty, and the loop returns
    the chunks it started with, within fuel exceeding the characters left. *)
Lemma chunk_loop_nonpos fuel start_char chunk_id chunks windows :
  target_chars self <= 0 -> 1 <= stride self ->
  Z.max 0 (len full_text - start_char) < Z.of_nat fuel ->
  exists ws, chunk_loop self full_text char_to_segment source_file fuel
    start_char chunk_id chunks windows = Return (chunks, ws).
Proof.
  intros Ht Hs. revert start_char chunk_id windows.
  induction fuel as [|fuel IH]; intros start_char chunk_id windows Hf.
  { simpl in Hf. lia. }
  cbn [chunk_loop].
  destruct (start_char <? len full_text) eqn:Hlt; [|eauto].
  apply Z.ltb_lt in Hlt.
  destruct (strip _); [eauto|].
  rewrite collect_range_empty by lia.
  cbn [sorted_by_id fold_left].
  destruct (_ >=? _); [eauto|]. apply IH. lia.
Qed.

End Loop.

End LoopFacts.

(** ** Properties of [TextChunker] *)

Module ChunkerSpec.
Import PyFacts Chunker ChunkerFacts LoopFacts.

(** For a chunker built by [__init__], [chunk_segments] returns the empty
    list when there are no segments, when all segment text is whitespace, or
    when [target_chars <= 0]; otherwise the first [set.add] of the first
    window raises [TypeError]. *)
Lemma chunk_segments_result t o self segments source_file :
  init t o = inr self ->
  chunk_segments self segments source_file =
    if (1 <=? t) && has_text segments then Raise unhashable_segment
    else Return [].
Proof.
  intros Hi. apply init_spec in Hi as [Hlt [Ht [_ Hs]]].
  unfold chunk_segments, chunk_segments_trace.
  destruct segments as [|seg0 r].
  { cbn [has_text existsb]. rewrite andb_false_r. reflexivity. }
  destruct (combine (seg0 :: r)) as [ft c2s] eqn:Hc.
  destruct (combine_spec _ _ _ Hc) as [Hft [Hlen _]].
  rewrite <- joined_has_text, <- Hft. cbv zeta.
  destruct (forallb isspace ft) eqn:Hsp.
  - rewrite andb_false_r, (strip_all_space ft Hsp). reflexivity.
  - assert (Hne : strip ft <> []) by (apply strip_not_nil, Hsp).
    pose proof (strip_length ft) as Hsl.
    destruct (strip ft) as [|c rest] eqn:Es; [congruence|].
    assert (Hc0 : isspace c = false) by (eapply strip_head; exact Es).
    cbn [negb]. rewrite andb_true_r.
    destruct (1 <=? t) eqn:Et.
    + apply Z.leb_le in Et.
      rewrite chunk_loop_first_raises; [reflexivity | lia | eauto |].
      unfold len. lia.
    + apply Z.leb_gt in Et.
      assert (Ht' : target_chars self <= 0) by lia.
      assert (Hs' : 1 <= stride self) by lia.
      assert (Hf : Z.max 0 (len (c :: rest) - 0)
                   < Z.of_nat (S (List.length (c :: rest)))) by (unfold len; lia).
      destruct (chunk_loop_nonpos self (c :: rest) c2s source_file _ 0 0 [] []
                  Ht' Hs' Hf) as [ws ->].
      reflexivity.
Qed.

(** [C6] Chunking an empty segment sequence returns the empty chunk list
    and raises nothing. *)
Theorem chunk_segments_empty (self : TextChunker) (source_file : option str) :
  chunk_segments self [] source_file = Return [].
Proof. reflexivity. Qed.

(** [C3] For a chunker built with [target_chars >= 1] and segments of which
    one has a non-whitespace character, [chunk_segments] returns no chunk
    list at all: the first [set.add] of the first window raises
    [TypeError], a [Segment] being unhashable. *)
Theorem chunk_segments_type_error t o self segments source_file :
  init t o = inr self -> 1 <= t ->
  (exists seg ch, In seg segments /\ In ch (Segment.text seg) /\ isspace ch = false) ->
  chunk_segments self segments source_file
    = Raise (mk_exn "TypeError" "unhashable type: 'Segment'").
Proof.
  intros Hi Ht [seg [ch [Hseg [Hch Hsp]]]].
  rewrite (chunk_segments_result t o self segments source_file Hi).
  rewrite (proj2 (Z.leb_le 1 t) Ht).
  assert (Hh : has_text segments = true).
  { unfold has_text. apply existsb_exists. exists seg. split; [exact Hseg|].
    apply existsb_exists. exists ch. rewrite Hsp. auto. }
  rewrite Hh. reflexivity.
Qed.

End ChunkerSpec.

(** ** Concrete runs of the chunker *)

Module ChunkerRuns.
Import Chunker ChunkerSpec.

Definition s (x : string) : str := list_ascii_of_string x.

(** The five segments of [tests/test_chunk.py]. *)
Definition segs5 : list Segment.t :=
  [Segment.mk 0 0 5 (s "This is the first segment.");
   Segment.mk 1 5 10 (s "This is the second segment.");
   Segment.mk 2 10 15 (s "This is the third segment.");
   Segment.mk 3 15 20 (s "This is the fourth segment.");
   Segment.mk 4 20 25 (s "This is the fifth segment.")].

(** The segment of [test_single_segment]. *)
Definition segs1 : list Segment.t := [Segment.mk 0 0 5 (s "Short text.")].

(** The three segments of [test_long_segments]. *)
Definition segs_long : list Segment.t :=
  [Segment.mk 0 0 10 (repeat "A"%char 100);
   Segment.mk 1 10 20 (repeat "A"%char 100);
   Segment.mk 2 20 30 (repeat "A"%char 100)].

(** [TextChunker(target_chars=50, overlap_chars=10)] *)
Definition chunker_50_10 : TextChunker := mk_chunker 50 10 40.

(** [TextChunker(target_chars=150, overlap_chars=30)] *)
Definition chunker_150_30 : TextChunker := mk_chunker 150 30 120.

Lemma init_50_10 : init 50 10 = inr chunker_50_10.
Proof. reflexivity. Defined.

(** [C1] On the input of [test_chunk_timestamps], [chunk_segments] returns
    no chunk whose [start] and [end] could be compared with its segments:
    it raises [TypeError] at the first [set.add]. *)
Theorem chunk_timestamps_type_error :
  chunk_segments chunker_50_10 segs5 None
    = Raise (mk_exn "TypeError" "unhashable type: 'Segment'").
Proof. vm_compute. reflexivity. Qed.

(** [C5] On the input of [test_chunk_segment_ids] and
    [test_chunk_character_count], one pass of the [while] body, on the
    first window [[0, 50)], already raises [TypeError]: no chunk gets a
    [segment_ids] or a [char_count]. *)
Theorem chunk_segment_ids_type_error :
  let '(full_text, char_to_segment) := combine segs5 in
  chunk_loop chunker_50_10 (strip full_text) char_to_segment None 1 0 0 [] []
    = Raise (mk_exn "TypeError" "unhashable type: 'Segment'") /\
  chunk_segments chunker_50_10 segs5 None
    = Raise (mk_exn "TypeError" "unhashable type: 'Segment'").
Proof. vm_compute. split; reflexivity. Qed.

(** [C9] On the input of [test_long_segments] ([TextChunker(150, 30)], three
    segments of 100 characters), [chunk_segments] returns no chunk whose
    [char_count] could be bounded: it raises [TypeError]. *)
Theorem chunk_char_count_type_error :
  init 150 30 = inr chunker_150_30 /\
  chunk_segments chunker_150_30 segs_long None
    = Raise (mk_exn "TypeError" "unhashable type: 'Segment'").
Proof. vm_compute. split; reflexivity. Qed.

(** [C10] On the input of [test_single_segment], whose one window is the
    non-empty text ["Short text."], [chunk_segments] emits no chunk: it
    raises [TypeError]. *)
Theorem chunk_text_type_error :
  strip (fst (combine segs1)) = s "Short text." /\
  chunk_segments chunker_50_10 segs1 None
    = Raise (mk_exn "TypeError" "unhashable type: 'Segment'").
Proof. vm_compute. split; reflexivity. Qed.

(** One segment whose text has a run of 100 spaces between ["a"] and ["b"]. *)
Definition segs_gap : list Segment.t :=
  [Segment.mk 0 0 1 (s "a" ++ repeat " "%char 100 ++ s "b")].

(** [C2] On [segs_gap] with [TextChunker(50, 10)] the stripped text has 102
    characters, and the loop processes only its first window [[0, 50)]:
    one pass of the [while] body raises [TypeError] there, so offsets 50 to
    101 lie in no processed window. *)
Theorem window_coverage_type_error :
  let '(full_text, char_to_segment) := combine segs_gap in
  List.length (strip full_text) = 102%nat /\
  chunk_loop chunker_50_10 (strip full_text) char_to_segment None 1 0 0 [] []
    = Raise (mk_exn "TypeError" "unhashable type: 'Segment'") /\
  chunk_segments chunker_50_10 segs_gap None
    = Raise (mk_exn "TypeError" "unhashable type: 'Segment'").
Proof. vm_compute. repeat split. Qed.

Lemma chunk_segments_type_error_witness :
  chunk_segments chunker_50_10 segs5 (Some (s "test.mp4"))
    = Raise (mk_exn "TypeError" "unhashable type: 'Segment'").
Proof.
  apply (chunk_segments_type_error 50 10 chunker_50_10 segs5 (Some (s "test.mp4"))
           init_50_10).
  - lia.
  - exists (Segment.mk 0 0 5 (s "This is the first segment.")), "T"%char.
    split; [left; reflexivity|]. split; [left; reflexivity | reflexivity].
Defined.

(** The constructor raises [ValueError], a class the code uses throughout;
    there is no [ConfigurationError]. *)
Lemma init_error_counterexample :
  exists e, init 50 50 = inl e /\ exn_type e <> "ConfigurationError"%string.
Proof. eexists. split; [reflexivity | discriminate]. Qed.

(** [C4] (as amended) [TextChunker(t, o)] raises [ValueError] exactly when
    [o >= t], before any chunking; otherwise it stores [t], [o] and the
    stride [t - o >= 1]. *)
Theorem init_validation (t o : Z) :
  match init t o with
  | inl e => t <= o /\ exn_type e = "ValueError"%string
  | inr self => o < t /\ target_chars self = t /\ overlap_chars self = o /\
                stride self = t - o /\ 1 <= stride self
  end.
Proof.
  unfold init. destruct (o >=? t) eqn:E.
  - rewrite Z.geb_leb, Z.leb_le in E. simpl. auto.
  - rewrite Z.geb_leb, Z.leb_gt in E. simpl. repeat split; lia.
Qed.

Example init_50_60 :
  init 50 50 = inl (mk_exn "ValueError" "overlap_chars must be less than target_chars") /\
  init 50 60 = inl (mk_exn "ValueError" "overlap_chars must be less than target_chars").
Proof. split; reflexivity. Qed.

End ChunkerRuns.

(** ** Properties of [TextNormalizer] *)

Module NormalizerSpec.
Import PyFacts Normalizer.

(** No whitespace other than single spaces, each followed by a
    non-whitespace character or by the end of the string. *)
Fixpoint single_spaced (s : str) : bool :=
  match s with
  | [] => true
  | c :: r =>
    (if isspace c then
       Ascii.eqb c " "%char &&
       match r with d :: _ => negb (isspace d) | [] => true end
     else true) && single_spaced r
  end.

Definition starts_nonspace (s : str) : Prop :=
  match s with c :: _ => isspace c = false | [] => True end.

Lemma collapse_ws_run_head (s : str) : starts_nonspace (collapse_ws s true).
Proof.
  induction s as [|c r IH]; simpl; [exact I|].
  destruct (isspace c) eqn:E; [exact IH | exact E].
Qed.

Lemma collapse_ws_single (s : str) b : single_spaced (collapse_ws s b) = true.
Proof.
  revert b. induction s as [|c r IH]; intros b; simpl; [reflexivity|].
  destruct (isspace c) eqn:E; [destruct b; [apply IH|]|].
  - simpl. rewrite IH, andb_true_r.
    pose proof (collapse_ws_run_head r) as Hh.
    destruct (collapse_ws r true) as [|d t]; [reflexivity|].
    simpl in Hh. rewrite Hh. reflexivity.
  - simpl. rewrite E, IH. reflexivity.
Qed.

Lemma single_spaced_app_l (a b : str) :
  single_spaced (a ++ b) = true -> single_spaced a = true.
Proof.
  induction a as [|c r IH]; simpl; [reflexivity|].
  intros H. apply andb_prop in H as [H1 H2]. rewrite (IH H2), andb_true_r.
  destruct (isspace c); [|reflexivity].
  apply andb_prop in H1 as [H1 H3]. rewrite H1. destruct r; simpl in *; auto.
Qed.

Lemma single_spaced_app_r (a b : str) :
  single_spaced (a ++ b) = true -> single_spaced b = true.
Proof.
  induction a as [|c r IH]; simpl; [auto|].
  intros H. apply andb_prop in H as [_ H]. auto.
Qed.

Lemma single_spaced_strip (s : str) :
  single_spaced s = true -> single_spaced (strip s) = true.
Proof.
  intros H. unfold strip.
  destruct (lstrip_split s) as [p [Hp _]].
  destruct (rstrip_prefix (lstrip s)) as [q Hq].
  rewrite Hp in H. apply single_spaced_app_r in H.
  rewrite Hq in H. apply single_spaced_app_l in H. exact H.
Qed.

Lemma collapse_ws_fixed (s : str) :
  single_spaced s = true ->
  collapse_ws s false = s /\ (starts_nonspace s -> collapse_ws s true = s).
Proof.
  induction s as [|c r IH]; simpl; [auto|].
  intros H. apply andb_prop in H as [H1 H2]. destruct (IH H2) as [IHf IHt].
  destruct (isspace c) eqn:E.
  - apply andb_prop in H1 as [Hc Hr]. apply Ascii.eqb_eq in Hc. subst c.
    split; [|discriminate].
    f_equal. apply IHt. destruct r as [|d t]; simpl; [exact I|].
    destruct (isspace d); [discriminate | reflexivity].
  - rewrite IHf. auto.
Qed.

Lemma strip_idem (s : str) : strip (strip s) = strip s.
Proof.
  assert (Hl : forall t, starts_nonspace t -> lstrip t = t).
  { intros [|c t] H; simpl in *; [reflexivity|]. rewrite H. reflexivity. }
  assert (Hh : starts_nonspace (strip s)).
  { destruct (strip s) as [|c t] eqn:E; simpl; [exact I|].
    eapply strip_head. exact E. }
  unfold strip at 1. rewrite (Hl _ Hh).
  unfold rstrip at 1. unfold strip, rstrip. rewrite rev_involutive, lstrip_idem.
  reflexivity.
Qed.

Lemma sub_no_match (p : pattern) (repl : str -> str) (text : str) :
  search p text 0 false = None -> sub p repl text = Return text.
Proof. intros H. unfold sub. cbn [sub_loop]. rewrite H. reflexivity. Qed.

(** The output of [normalize] is the empty input or a stripped,
    whitespace-collapsed string. *)
Lemma normalize_shape self text out :
  normalize self text = Return out ->
  out = [] \/ exists x, out = strip (collapse_ws x false).
Proof.
  unfold normalize. destruct text as [|c r]; [intros H; injection H as <-; auto|].
  destruct (match glossary self with [] => _ | _ :: _ => _ end) as [t1| |];
    try discriminate.
  destruct (match remove_fillers self, filler_pattern self with
            | true, Some fp => _ | _, _ => _ end) as [t2| |]; try discriminate.
  intros H; injection H as <-. eauto.
Qed.

(** [pattern.search(text)] finds something. *)
Definition has_match (p : pattern) (text : str) : bool :=
  match search p text 0 false with Some _ => true | None => false end.

(** The text still holds a glossary term (when a glossary is loaded) or a
    filler word (when fillers are removed), as the normaliser's own patterns
    recognise them. *)
Definition has_remaining_terms (self : TextNormalizer) (text : str) : bool :=
  match glossary self with
  | [] => false
  | _ :: _ => has_match (glossary_pattern self) text
  end ||
  match remove_fillers self, filler_pattern self with
  | true, Some fp => has_match fp text
  | _, _ => false
  end.

(** [C8] Normalising the output of [normalize] again, when it holds no
    glossary term or filler word, returns it unchanged. *)
Theorem normalize_idempotent self text out :
  normalize self text = Return out ->
  has_remaining_terms self out = false ->
  normalize self out = Return out.
Proof.
  intros Hn Hrem.
  destruct (normalize_shape _ _ _ Hn) as [-> | [x ->]]; [reflexivity|].
  set (n := strip (collapse_ws x false)) in *.
  assert (Hs : single_spaced n = true)
    by (apply single_spaced_strip, collapse_ws_single).
  assert (Hfix : strip (collapse_ws n false) = n).
  { rewrite (proj1 (collapse_ws_fixed n Hs)). unfold n. apply strip_idem. }
  clearbody n. clear Hn Hs.
  unfold has_remaining_terms in Hrem. apply orb_false_elim in Hrem as [Hg Hf].
  unfold normalize. destruct n as [|c r]; [reflexivity|].
  assert (Hr1 : match glossary self with
                | [] => Return (A:=str) (c :: r)
                | _ :: _ => apply_glossary self (c :: r) end
                = Return (c :: r)).
  { destruct (glossary self); [reflexivity|].
    unfold has_match in Hg.
    destruct (search (glossary_pattern self) (c :: r) 0 false) eqn:E; [discriminate|].
    apply sub_no_match, E. }
  rewrite Hr1.
  assert (Hr2 : match remove_fillers self, filler_pattern self with
                | true, Some fp => remove_fillers_in fp (c :: r)
                | _, _ => Return (A:=str) (c :: r) end
                = Return (c :: r)).
  { destruct (remove_fillers self), (filler_pattern self) as [fp|]; try reflexivity.
    unfold has_match in Hf. destruct (search fp (c :: r) 0 false) eqn:E; [discriminate|].
    apply sub_no_match, E. }
  rewrite Hr2, Hfix. reflexivity.
Qed.

Definition s (x : string) : str := list_ascii_of_string x.

(** The glossary of [tests/test_normalize.py]. *)
Definition tc_glossary : list (str * str) :=
  [(s "tc pcm", s "TcPCM"); (s "tcpcm", s "TcPCM")].

(** [C7] With the glossary [{"tc pcm": "TcPCM", "tcpcm": "TcPCM"}] the
    pattern tries the longer phrase first, and both ["tc pcm is great"] and
    ["TCPCM is great"] normalise to ["TcPCM is great"], whether or not
    fillers are removed; a glossary word inside a longer word is left alone. *)
Theorem normalize_tcpcm (remove_fillers : bool) :
  let self := init tc_glossary remove_fillers in
  glossary_pattern self = [s "tc pcm"; s "tcpcm"] /\
  normalize self (s "tc pcm is great") = Return (s "TcPCM is great") /\
  normalize self (s "TCPCM is great") = Return (s "TcPCM is great") /\
  normalize self (s "TC PCM is great") = Return (s "TcPCM is great") /\
  normalize self (s "tcpcms is great") = Return (s "tcpcms is great").
Proof. destruct remove_fillers; vm_compute; repeat split. Qed.

Lemma normalize_idempotent_witness :
  normalize (init tc_glossary true) (s "um  this is   a test ")
    = Return (s "this is a test") /\
  has_remaining_terms (init tc_glossary true) (s "this is a test") = false /\
  normalize (init tc_glossary true) (s "this is a test") = Return (s "this is a test").
Proof.
  assert (H1 : normalize (init tc_glossary true) (s "um  this is   a test ")
                 = Return (s "this is a test")) by (vm_compute; reflexivity).
  assert (H2 : has_remaining_terms (init tc_glossary true) (s "this is a test") = false)
    by (vm_compute; reflexivity).
  split; [exact H1|]. split; [exact H2|].
  exact (normalize_idempotent _ _ _ H1 H2).
Defined.

End NormalizerSpec.

(** ** Further properties of the chunker *)

Module ChunkerMore.
Import PyFacts Chunker ChunkerFacts LoopFacts ChunkerSpec.

(** [X15] Whatever the fields of the chunker, [chunk_segments] never
    returns a chunk: when it returns, it returns the empty list. *)
Theorem chunk_segments_no_chunk self segments source_file chunks :
  chunk_segments self segments source_file = Return chunks -> chunks = [].
Proof.
  unfold chunk_segments, chunk_segments_trace.
  destruct segments as [|seg0 r]; [intros H; injection H as <-; reflexivity|].
  destruct (combine (seg0 :: r)) as [ft c2s]. cbv zeta.
  destruct (chunk_loop _ _ _ _ _ _ _ _ _) as [[cs ws]| |] eqn:Hl; try discriminate.
  intros H; injection H as <-. exact (chunk_loop_no_chunk _ _ _ _ _ _ _ _ _ _ _ Hl).
Qed.

(** [X16] [chunk_transcript(segments, t, o, source_file)] raises
    [ValueError] when [o >= t], even for no segments; otherwise it raises
    [TypeError] when [t >= 1] and some segment text has a non-whitespace
    character, and it returns [[]] in every other case. *)
Theorem chunk_transcript_result segments t o source_file :
  chunk_transcript segments t o source_file =
    if o >=? t
    then Raise (mk_exn "ValueError" "overlap_chars must be less than target_chars")
    else if (1 <=? t) && has_text segments
    then Raise (mk_exn "TypeError" "unhashable type: 'Segment'")
    else Return [].
Proof.
  unfold chunk_transcript. destruct (init t o) as [e|self] eqn:Hi.
  - unfold init in Hi.
    destruct (o >=? t); [injection Hi as <-; reflexivity | discriminate].
  - rewrite (chunk_segments_result t o self segments source_file Hi).
    unfold init in Hi. destruct (o >=? t); [discriminate | reflexivity].
Qed.

End ChunkerMore.

(** ** Further properties of the normaliser *)

Module NormalizerMore.
Import PyFacts Normalizer NormalizerSpec.

(** *** Text without word characters *)

Lemma isspace_not_word c : isspace c = true -> is_word c = false.
Proof.
  destruct c as [[] [] [] [] [] [] [] []]; vm_compute; congruence.
Qed.

Lemma word_at_none s i :
  forallb (fun c => negb (is_word c)) s = true -> word_at s i = false.
Proof.
  intros H. unfold word_at. destruct (nth_error s i) as [c|] eqn:E; [|reflexivity].
  apply nth_error_In in E. rewrite forallb_forall in H.
  specialize (H c E). destruct (is_word c); [discriminate | reflexivity].
Qed.

(** Neither [\b] nor a match exists where there is no word character. *)
Lemma search_from_no_word p s i k ma :
  forallb (fun c => negb (is_word c)) s = true -> search_from p s i k ma = None.
Proof.
  intros H. revert i ma. induction k as [|k IH]; intros i ma; simpl;
    unfold match_at; unfold boundary;
    rewrite (word_at_none s i H);
    (destruct i as [|i']; [|rewrite (word_at_none s i' H)]); simpl; auto.
Qed.

Lemma sub_no_word p repl s :
  forallb (fun c => negb (is_word c)) s = true -> sub p repl s = Return s.
Proof.
  intros H. apply sub_no_match. unfold search. apply search_from_no_word, H.
Qed.

(** [X7] On a text with no word character ([\w]) neither the glossary nor
    the filler pattern changes anything: [normalize] only collapses runs of
    whitespace and strips. *)
Theorem normalize_no_word_chars self text :
  forallb (fun c => negb (is_word c)) text = true ->
  normalize self text = Return (strip (collapse_ws text false)).
Proof.
  intros H. unfold normalize. destruct text as [|c r]; [reflexivity|]. cbv zeta.
  destruct (glossary self);
    [|unfold apply_glossary; rewrite sub_no_word by exact H];
  (destruct (remove_fillers self), (filler_pattern self);
    try (unfold remove_fillers_in; rewrite sub_no_word by exact H)).
  all: reflexivity.
Qed.

Lemma collapse_ws_spaces s b :
  forallb isspace s = true -> forallb isspace (collapse_ws s b) = true.
Proof.
  revert b. induction s as [|c r IH]; intros b H; simpl in *; [reflexivity|].
  apply andb_prop in H as [Hc Hr]. rewrite Hc.
  destruct b; simpl; [apply IH, Hr | rewrite IH by exact Hr; reflexivity].
Qed.

Lemma lstrip_spaces s : forallb isspace s = true -> lstrip s = [].
Proof.
  induction s as [|c r IH]; simpl; [reflexivity|].
  intros H. apply andb_prop in H as [-> Hr]. apply IH, Hr.
Qed.

(** [X8] A whitespace-only text normalises to the empty string, whatever the
    glossary and filler setting. *)
Theorem normalize_whitespace_only self text :
  forallb isspace text = true -> normalize self text = Return [].
Proof.
  intros H.
  assert (Hw : forallb (fun c => negb (is_word c)) text = true).
  { rewrite forallb_forall in *. intros c Hc.
    rewrite (isspace_not_word c (H c Hc)). reflexivity. }
  unfold normalize. destruct text as [|c r]; [reflexivity|]. cbv zeta.
  destruct (glossary self);
    [|unfold apply_glossary; rewrite sub_no_word by exact Hw];
  (destruct (remove_fillers self), (filler_pattern self);
    try (unfold remove_fillers_in; rewrite sub_no_word by exact Hw)).
  all: unfold strip; rewrite lstrip_spaces by (apply collapse_ws_spaces, H);
    reflexivity.
Qed.

(** [X6] Whatever [normalize] returns is already stripped and has no
    whitespace but single spaces between non-blank characters. *)
Theorem normalize_output_clean self text out :
  normalize self text = Return out ->
  strip out = out /\ single_spaced out = true.
Proof.
  intros H. destruct (normalize_shape _ _ _ H) as [-> | [x ->]]; [auto|].
  split; [apply strip_idem|]. apply single_spaced_strip, collapse_ws_single.
Qed.

(** *** The glossary pattern *)

Definition len_ge (a b : str) : Prop := (List.length b <= List.length a)%nat.

Lemma insert_by_len_perm t l : Permutation (t :: l) (insert_by_len t l).
Proof.
  induction l as [|x r IH]; simpl; [auto|].
  destruct (List.length x <? List.length t)%nat; [auto|].
  eapply perm_trans; [apply perm_swap|]. auto.
Qed.

Lemma insert_by_len_sorted t l :
  Sorted len_ge l -> Sorted len_ge (insert_by_len t l).
Proof.
  induction 1 as [|x r Hs IH Hhd]; simpl; [auto|].
  destruct (List.length x <? List.length t)%nat eqn:E.
  - apply Nat.ltb_lt in E. constructor; [constructor; auto|].
    constructor. unfold len_ge. lia.
  - apply Nat.ltb_ge in E. constructor; [exact IH|].
    destruct r as [|z r']; simpl.
    + constructor. unfold len_ge. lia.
    + destruct (List.length z <? List.length t)%nat; constructor;
        [unfold len_ge; lia|]. inversion Hhd. assumption.
Qed.

Lemma sort_by_len_desc_spec (terms : list str) :
  Permutation terms (sort_by_len_desc terms) /\ Sorted len_ge (sort_by_len_desc terms).
Proof.
  unfold sort_by_len_desc.
  assert (H : forall acc, Sorted len_ge acc ->
    Permutation (terms ++ acc)
      (fold_left (fun acc t => insert_by_len t acc) terms acc) /\
    Sorted len_ge (fold_left (fun acc t => insert_by_len t acc) terms acc)).
  { induction terms as [|t r IH]; intros acc Hs; simpl; [auto|].
    destruct (IH (insert_by_len t acc) (insert_by_len_sorted t acc Hs)) as [Hp Hs'].
    split; [|exact Hs'].
    eapply perm_trans; [|exact Hp].
    eapply perm_trans; [apply Permutation_middle|].
    apply Permutation_app_head, insert_by_len_perm. }
  destruct (H [] (Sorted_nil _)) as [Hp Hs]. rewrite app_nil_r in Hp. auto.
Qed.

(** [X9] [__init__] builds the glossary pattern from all the glossary keys,
    each once, ordered longest first. *)
Theorem glossary_pattern_longest_first glossary remove_fillers :
  let p := glossary_pattern (init glossary remove_fillers) in
  Permutation (map fst glossary) p /\ Sorted len_ge p.
Proof. cbv zeta. simpl. unfold create_pattern. apply sort_by_len_desc_spec. Qed.

End NormalizerMore.

(** ** Properties of the ASR segment loop and of its composition with the
    chunker *)

Module AsrMore.
Import PyFacts Asr Chunker ChunkerFacts ChunkerSpec.

Definition seg_of (k : nat) (r : raw_segment) : Segment.t :=
  Segment.mk (Z.of_nat k) (raw_start r) (raw_end r) (strip (raw_text r)).

Lemma transcribe_loop_spec cb segments_iter segments calls segments' calls' :
  transcribe_loop cb (len segments) segments_iter segments calls = (segments', calls') ->
  List.length segments' = (List.length segments + List.length segments_iter)%nat /\
  (forall k, (k < List.length segments)%nat -> nth_error segments' k = nth_error segments k) /\
  (forall k r, nth_error segments_iter k = Some r ->
     nth_error segments' (List.length segments + k) = Some (seg_of (List.length segments + k) r)) /\
  (if cb then
     List.length calls' = (List.length calls + List.length segments_iter)%nat /\
     (forall k, (k < List.length calls)%nat -> nth_error calls' k = nth_error calls k) /\
     (forall k r, nth_error segments_iter k = Some r ->
        nth_error calls' (List.length calls + k)
        = Some (raw_end r, Z.of_nat (List.length segments + k) + 1))
   else calls' = calls).
Proof.
  revert segments calls.
  induction segments_iter as [|r rest IH]; intros segments calls H; simpl in H.
  - injection H as <- <-. rewrite Nat.add_0_r.
    repeat split; try (intros [|k] ? E; discriminate); auto.
    destruct cb; [|reflexivity]. rewrite Nat.add_0_r.
    repeat split; try (intros [|k] ? E; discriminate); auto.
  - set (seg := Segment.mk (len segments) (raw_start r) (raw_end r)
                  (strip (raw_text r))) in H.
    assert (Hi : len segments + 1 = len (segments ++ [seg]))
      by (unfold len; rewrite length_app; simpl; lia).
    rewrite Hi in H.
    assert (Hl : List.length (segments ++ [seg]) = S (List.length segments))
      by (rewrite length_app; simpl; lia).
    assert (Hseg : seg = seg_of (List.length segments + 0) r)
      by (unfold seg, seg_of, len; rewrite Nat.add_0_r; reflexivity).
    destruct (IH _ _ H) as [H1 [H2 [H3 H4]]]. rewrite Hl in H1, H2, H3.
    split; [simpl; lia|]. split.
    { intros k Hk. rewrite H2 by lia. apply nth_error_app1, Hk. }
    split.
    { intros [|k] r' E; simpl in E.
      - injection E as <-. rewrite H2 by lia.
        rewrite nth_error_app2 by lia.
        replace (List.length segments + 0 - List.length segments)%nat with O by lia.
        rewrite <- Hseg. reflexivity.
      - rewrite <- Nat.add_succ_comm. rewrite (H3 k r' E). reflexivity. }
    destruct cb; [|exact H4].
    destruct H4 as [H5 [H6 H7]].
    assert (Hc : List.length (calls ++ [(raw_end r, len (segments ++ [seg]))])
                 = S (List.length calls)) by (rewrite length_app; simpl; lia).
    rewrite Hc in H5, H6, H7.
    split; [simpl; lia|]. split.
    { intros k Hk. rewrite H6 by lia. apply nth_error_app1, Hk. }
    intros [|k] r' E; simpl in E.
    + injection E as <-. rewrite H6 by lia.
      rewrite nth_error_app2 by lia.
      replace (List.length calls + 0 - List.length calls)%nat with O by lia. simpl.
      rewrite <- Hi. unfold len. do 2 f_equal. lia.
    + rewrite <- !Nat.add_succ_comm. rewrite (H7 k r' E), Hl. reflexivity.
Qed.

Lemma transcribe_run segments_iter info_language cb :
  let '(segments', calls) := transcribe_loop cb 0 segments_iter [] [] in
  transcribe segments_iter info_language cb =
    (mk_transcript segments' info_language
       (Some match segments' with
             | [] => 0%Q
             | _ :: _ => match getitem segments' (-1) with
                         | Some seg => Segment.end_ seg | None => 0%Q end
             end), calls).
Proof.
  unfold transcribe. destruct (transcribe_loop _ _ _ _ _). reflexivity.
Qed.

Lemma transcribe_loop_start cb segments_iter segments' calls' :
  transcribe_loop cb 0 segments_iter [] [] = (segments', calls') ->
  List.length segments' = List.length segments_iter /\
  (forall k r, nth_error segments_iter k = Some r ->
     nth_error segments' k = Some (seg_of k r)) /\
  (if cb then List.length calls' = List.length segments_iter /\
     (forall k r, nth_error segments_iter k = Some r ->
        nth_error calls' k = Some (raw_end r, Z.of_nat k + 1))
   else calls' = []).
Proof.
  intros H. change 0 with (len (@nil Segment.t)) in H.
  destruct (transcribe_loop_spec _ _ _ _ _ _ H) as [H1 [_ [H3 H4]]].
  simpl in H1, H3. split; [exact H1|]. split; [exact H3|].
  destruct cb; [|exact H4]. destruct H4 as [H5 [_ H7]]. simpl in H5, H7. auto.
Qed.

Lemma getitem_last {A} (l : list A) :
  l <> [] -> getitem l (-1) = nth_error l (List.length l - 1).
Proof.
  intros Hne. destruct l as [|x r]; [congruence|].
  unfold getitem, len. simpl List.length.
  replace (-1 <? 0) with true by reflexivity. cbv iota.
  rewrite (proj2 (Z.ltb_ge (-1 + Z.of_nat (S (List.length r))) 0)) by lia.
  rewrite (proj2 (Z.leb_gt (Z.of_nat (S (List.length r)))
                   (-1 + Z.of_nat (S (List.length r))))) by lia.
  simpl orb. cbv iota. f_equal. lia.
Qed.

(** [X11] [transcribe] returns one segment per segment of the model, in
    order: the [k]-th has [id = k], the model's times and its stripped text. *)
Theorem transcribe_segments segments_iter info_language cb :
  let segments' := segments (fst (transcribe segments_iter info_language cb)) in
  List.length segments' = List.length segments_iter /\
  forall k r, nth_error segments_iter k = Some r ->
    nth_error segments' k =
    Some (Segment.mk (Z.of_nat k) (raw_start r) (raw_end r) (strip (raw_text r))).
Proof.
  pose proof (transcribe_run segments_iter info_language cb) as Hr.
  destruct (transcribe_loop cb 0 segments_iter [] []) as [segs calls] eqn:E.
  rewrite Hr. simpl.
  destruct (transcribe_loop_start _ _ _ _ E) as [H1 [H2 _]]. auto.
Qed.

(** [X12] The transcript's duration is the end of the last model segment,
    or [0.0] when there is none; with a progress callback, the callback is
    called once per segment, in order, with that segment's end time and the
    number of segments so far, and never without one. *)
Theorem transcribe_duration_callbacks segments_iter info_language cb :
  let '(tr, calls) := transcribe segments_iter info_language cb in
  duration tr = Some match rev segments_iter with
                     | [] => 0%Q
                     | r :: _ => raw_end r
                     end /\
  if cb then List.length calls = List.length segments_iter /\
    (forall k r, nth_error segments_iter k = Some r ->
       nth_error calls k = Some (raw_end r, Z.of_nat k + 1))
  else calls = [].
Proof.
  pose proof (transcribe_run segments_iter info_language cb) as Hr.
  destruct (transcribe_loop cb 0 segments_iter [] []) as [segs calls] eqn:E.
  rewrite Hr. cbn [duration].
  destruct (transcribe_loop_start _ _ _ _ E) as [H1 [H2 H3]].
  split; [|exact H3]. f_equal.
  destruct (rev segments_iter) as [|r t] eqn:R.
  - apply (f_equal (@rev raw_segment)) in R. rewrite rev_involutive in R.
    subst segments_iter. destruct segs; [reflexivity | discriminate].
  - apply (f_equal (@rev raw_segment)) in R. rewrite rev_involutive in R.
    simpl in R. subst segments_iter.
    assert (Hn : nth_error (rev t ++ [r]) (List.length (rev t)) = Some r)
      by (rewrite nth_error_app2, Nat.sub_diag by lia; reflexivity).
    specialize (H2 _ _ Hn).
    rewrite length_app in H1. simpl in H1.
    destruct segs as [|x segs]; [simpl in H1; lia|].
    rewrite getitem_last by discriminate.
    replace (List.length (x :: segs) - 1)%nat with (List.length (rev t)) by lia.
    rewrite H2. reflexivity.
Qed.

Lemma transcribe_loop_texts cb i segments_iter segments calls segments' calls' :
  transcribe_loop cb i segments_iter segments calls = (segments', calls') ->
  map Segment.text segments'
  = map Segment.text segments ++ map (fun r => strip (raw_text r)) segments_iter.
Proof.
  revert i segments calls.
  induction segments_iter as [|r rest IH]; intros i segments calls H; simpl in H.
  - injection H as <- _. rewrite app_nil_r. reflexivity.
  - rewrite (IH _ _ _ H), map_app. simpl. rewrite <- app_assoc. reflexivity.
Qed.

Lemma existsb_map' {A B} (f : B -> bool) (g : A -> B) (l : list A) :
  existsb f (map g l) = existsb (fun x => f (g x)) l.
Proof. induction l as [|x r IH]; simpl; [reflexivity|]. rewrite IH. reflexivity. Qed.

Lemma existsb_ext' {A} (f g : A -> bool) (l : list A) :
  (forall x, f x = g x) -> existsb f l = existsb g l.
Proof.
  intros H. induction l as [|x r IH]; simpl; [reflexivity|]. rewrite H, IH. reflexivity.
Qed.

(** Stripping keeps the non-whitespace characters. *)
Lemma has_text_strip (s : str) :
  existsb (fun c => negb (isspace c)) (strip s) = existsb (fun c => negb (isspace c)) s.
Proof.
  rewrite !existsb_negb_forallb. f_equal.
  destruct (forallb isspace s) eqn:E.
  - rewrite (strip_all_space s E). reflexivity.
  - destruct (strip s) as [|c r] eqn:Es; [exfalso; exact (strip_not_nil s E Es)|].
    simpl. rewrite (strip_head s c r Es). reflexivity.
Qed.

(** [X17] For a chunker built by [__init__] with [target_chars >= 1],
    chunking the segments of the transcript returned by [transcribe]
    raises [TypeError] when the text of some model segment has a
    non-whitespace character, and returns [[]] otherwise. *)
Theorem transcript_chunking segments_iter info_language cb t o self source_file :
  init t o = inr self -> 1 <= t ->
  chunk_segments self (segments (fst (transcribe segments_iter info_language cb)))
    source_file =
  if existsb (fun r => existsb (fun c => negb (isspace c)) (raw_text r)) segments_iter
  then Raise (mk_exn "TypeError" "unhashable type: 'Segment'")
  else Return [].
Proof.
  intros Hi Ht. rewrite (chunk_segments_result t o self _ source_file Hi).
  rewrite (proj2 (Z.leb_le 1 t) Ht), andb_true_l.
  pose proof (transcribe_run segments_iter info_language cb) as Hr.
  destruct (transcribe_loop cb 0 segments_iter [] []) as [segs calls] eqn:E.
  rewrite Hr. cbn [fst segments].
  apply transcribe_loop_texts in E. simpl in E.
  assert (Hh : has_text segs
               = existsb (fun r => existsb (fun c => negb (isspace c)) (raw_text r))
                   segments_iter).
  { unfold has_text.
    rewrite <- (@existsb_map' Segment.t str (existsb (fun c => negb (isspace c))) Segment.text).
    rewrite E.
    rewrite existsb_map'. apply existsb_ext'. intros r. apply has_text_strip. }
  rewrite Hh. reflexivity.
Qed.

End AsrMore.

(** ** Runs of the further properties on concrete inputs *)

Module NormalizerRuns.
Import PyFacts Normalizer NormalizerSpec NormalizerMore.

Lemma normalize_output_clean_witness :
  strip (s "this is a test") = s "this is a test" /\
  single_spaced (s "this is a test") = true.
Proof.
  assert (H : normalize (init tc_glossary true) (s "um  this is   a test ")
                = Return (s "this is a test")) by (vm_compute; reflexivity).
  exact (normalize_output_clean _ _ _ H).
Defined.

Lemma normalize_no_word_chars_witness :
  normalize (init tc_glossary true) (s " -- ...  ?! ")
    = Return (strip (collapse_ws (s " -- ...  ?! ") false)).
Proof.
  apply normalize_no_word_chars. vm_compute. reflexivity.
Defined.

Lemma normalize_whitespace_only_witness :
  normalize (init tc_glossary true) (s "  " ++ [Ascii.ascii_of_nat 9] ++ s " ")
    = Return [].
Proof.
  apply normalize_whitespace_only. vm_compute. reflexivity.
Defined.

End NormalizerRuns.

Module ChunkerMoreRuns.
Import PyFacts Chunker ChunkerRuns ChunkerMore.

Lemma chunk_segments_no_chunk_witness :
  chunk_segments chunker_50_10 [Segment.mk 0 0 1 (s "   ")] None = Return [] /\
  @nil Chunk.t = [].
Proof.
  assert (H : chunk_segments chunker_50_10 [Segment.mk 0 0 1 (s "   ")] None
              = Return []) by (vm_compute; reflexivity).
  split; [exact H | exact (chunk_segments_no_chunk _ _ _ _ H)].
Defined.

End ChunkerMoreRuns.

Module AsrRuns.
Import PyFacts Asr Chunker ChunkerRuns AsrMore.

(** The model output behind the five segments of [tests/test_chunk.py]. *)
Definition raw5 : list raw_segment :=
  map (fun seg => mk_raw (Segment.start seg) (Segment.end_ seg) (Segment.text seg)) segs5.

Lemma transcript_chunking_witness :
  chunk_segments chunker_50_10 (segments (fst (transcribe raw5 None false))) None
    = Raise (mk_exn "TypeError" "unhashable type: 'Segment'").
Proof.
  rewrite (transcript_chunking raw5 None false 50 10 chunker_50_10 None init_50_10)
    by lia.
  vm_compute. reflexivity.
Defined.

End AsrRuns.
